(** * CP_TRPO: the shape-drawing and phone-factory demos of [main.cpp]

    A shallow embedding of [src/main.cpp].  The translation unit holds two
    independent snippets: a polymorphic shape hierarchy with its
    [DrwManager], and an abstract factory of phones together with the only
    [main] of the program.

    Conventions of the embedding.
    - [int] is [Z]; the only arithmetic of the program is the [++i] of the
      driver loop, whose signed overflow is a fault.
    - [std::string] is [string]; the escape [\n] of the C++ literals is the
      character of code 10, written [nl].
    - [std::shared_ptr<T>] is [option T]: [None] is the empty pointer a
      default construction gives, [make_shared] gives [Some]. Every object
      is immutable once built, so sharing is not observable.
    - A virtual call is a [match] on the dynamic class of the receiver.
    - Statements run in the monad [M]: they thread the process streams and
      stop at the first fault (dereference of an empty pointer, signed
      overflow).  Loops whose bound is not structural take fuel. *)

From Stdlib Require Import ZArith List Bool Lia.
From Stdlib Require Import Strings.Ascii Strings.String.
Import ListNotations.

Local Open Scope string_scope.
Local Open Scope Z_scope.

(** ** The process and the statement monad *)

Module Cpp.

(** The standard streams [<iostream>] gives the process: what is still to be
    read on [std::cin] and what was written on [std::cout]. *)
Record World : Type := mkWorld { cin : string; cout : string }.

Inductive fault : Type := NullDeref | SignedOverflow.

Inductive outcome (A : Type) : Type :=
| Ok (a : A) (w : World)
| Fault (f : fault)
| OutOfFuel.

Arguments Ok {A} a w.
Arguments Fault {A} f.
Arguments OutOfFuel {A}.

Definition M (A : Type) : Type := World -> outcome A.

Definition ret {A : Type} (a : A) : M A := fun w => Ok a w.

Definition bind {A B : Type} (m : M A) (k : A -> M B) : M B :=
  fun w => match m w with
           | Ok a w' => k a w'
           | Fault f => Fault f
           | OutOfFuel => OutOfFuel
           end.

Definition raise {A : Type} (f : fault) : M A := fun _ => Fault f.

Definition out_of_fuel {A : Type} : M A := fun _ => OutOfFuel.

Declare Scope cpp_scope.
Delimit Scope cpp_scope with cpp.

Notation "x <- m ;; k" := (bind m (fun x => k))
  (at level 100, m at next level, right associativity) : cpp_scope.
Notation "m ;; k" := (bind m (fun _ => k))
  (at level 100, right associativity) : cpp_scope.

(** The line terminator of the literals. *)
Definition nl : string := String "010"%char EmptyString.

(** [std::cout << s]. *)
Definition cout_write (s : string) : M unit :=
  fun w => Ok tt {| cin := cin w; cout := cout w ++ s |}.

(** [std::shared_ptr<T>]. *)
Definition shared_ptr (T : Type) : Type := option T.

Definition null_ptr {T : Type} : shared_ptr T := None.

Definition make_shared {T : Type} (t : T) : shared_ptr T := Some t.

(** [p->...]: dereferencing an empty pointer is a fault. *)
Definition deref {T : Type} (p : shared_ptr T) : M T :=
  match p with
  | Some t => ret t
  | None => raise NullDeref
  end.

(** [int] bounds and [++i]. *)
Definition INT_MAX : Z := 2147483647.

Definition pre_incr (i : Z) : M Z :=
  if i <? INT_MAX then ret (i + 1) else raise SignedOverflow.

(** A range-based [for] over a container. *)
Fixpoint for_each {A : Type} (body : A -> M unit) (l : list A) : M unit :=
  match l with
  | [] => ret tt
  | a :: l' => (body a ;; for_each body l')%cpp
  end.

(** What is observed of a finished run: the lines written, each closed by
    the terminator; an unterminated tail counts as a last line. *)
Fixpoint lines_aux (cur : string) (s : string) : list string :=
  match s with
  | EmptyString =>
      match cur with
      | EmptyString => []
      | _ => [cur]
      end
  | String c s' =>
      if Ascii.eqb c "010"%char
      then cur :: lines_aux EmptyString s'
      else lines_aux (cur ++ String c EmptyString) s'
  end.

Definition lines (s : string) : list string := lines_aux EmptyString s.

(** [needle] occurs in [hay] as a contiguous run of characters. *)
Fixpoint contains (needle hay : string) : bool :=
  prefix needle hay ||
  match hay with
  | EmptyString => false
  | String _ hay' => contains needle hay'
  end.

End Cpp.

Import Cpp.
Local Open Scope cpp_scope.

(** ** The shape demo *)

Module ShapeDemo.

Record Point : Type := mkPoint { x : Z; y : Z }.

(** [Point(int _x = 0, int _y = 0) { x = _x; y = _y; }] *)
Definition Point_ctor (_x _y : Z) : Point := {| x := _x; y := _y |}.

(** The data members of the base class [Shape]. *)
Record ShapeBase : Type := mkShapeBase { center : Point; type : string }.

(** [Shape(Point c) { center = c; type = "BaseFigure"; }] *)
Definition Shape_ctor (c : Point) : ShapeBase :=
  {| center := c; type := "BaseFigure" |}.

Definition set_type (b : ShapeBase) (t : string) : ShapeBase :=
  {| center := center b; type := t |}.

(** An object of a class derived from [Shape]: its base part and its own
    member ([radius], [side]). *)
Inductive Shape : Type :=
| Circle (base : ShapeBase) (radius : Z)
| Square (base : ShapeBase) (side : Z).

Definition base_of (s : Shape) : ShapeBase :=
  match s with
  | Circle b _ => b
  | Square b _ => b
  end.

(** [Circle(Point cnt, int r) : Shape(cnt) { radius = r; type = "Circle"; }] *)
Definition Circle_ctor (cnt : Point) (r : Z) : Shape :=
  let b := Shape_ctor cnt in
  Circle (set_type b "Circle") r.

(** [Square(Point cnt, int r) : Shape(cnt) { side = r; type = "Square"; }] *)
Definition Square_ctor (cnt : Point) (r : Z) : Shape :=
  let b := Shape_ctor cnt in
  Square (set_type b "Square") r.

(** [std::string GetType() const { return type; }] *)
Definition GetType (s : Shape) : string := type (base_of s).

(** [virtual void Draw() const], as overridden by each class. *)
Definition Draw (s : Shape) : M unit :=
  match s with
  | Circle _ _ => cout_write ("Draw Circle!" ++ nl)
  | Square _ _ => cout_write ("Draw Square!" ++ nl)
  end.

Record DrwManager : Type :=
  mkDrwManager { shapeList : list (shared_ptr Shape) }.

(** [std::list::push_back]. *)
Definition push_back {A : Type} (l : list A) (a : A) : list A := l ++ [a].

(** [DrwManager()]: the list starts empty and receives a square, then a
    circle. *)
Definition DrwManager_ctor : DrwManager :=
  let l0 : list (shared_ptr Shape) := [] in
  let p := Point_ctor 0 0 in
  let l1 := push_back l0 (make_shared (Square_ctor p 3)) in
  let l2 := push_back l1 (make_shared (Circle_ctor p 3)) in
  {| shapeList := l2 |}.

(** [void drawShapes()]: a non-const member, so it returns the receiver as
    the call leaves it. *)
Definition drawShapes (this : DrwManager) : M DrwManager :=
  for_each (fun shape => s <- deref shape ;; Draw s) (shapeList this) ;;
  ret this.

End ShapeDemo.

(** ** The phone factory demo *)

Module PhoneDemo.

(** The classes of the product hierarchy. *)
Inductive phone_class : Type :=
| Phone_c | Smartphone_c | BasicPhone_c
| NokiaSmartphone_c | NokiaBasicPhone_c
| SamsungSmartphone_c | SamsungBasicPhone_c
| HTCSmartphone_c | HTCBasicPhone_c.

(** The [: public B] clause of each class declaration. *)
Definition base_class (c : phone_class) : option phone_class :=
  match c with
  | Phone_c => None
  | Smartphone_c => Some Phone_c
  | BasicPhone_c => Some Phone_c
  | NokiaSmartphone_c => Some Smartphone_c
  | NokiaBasicPhone_c => Some BasicPhone_c
  | SamsungSmartphone_c => Some Smartphone_c
  | SamsungBasicPhone_c => Some BasicPhone_c
  | HTCSmartphone_c => Some Smartphone_c
  | HTCBasicPhone_c => Some BasicPhone_c
  end.

(** [c] is [d] or inherits from it, through any number of bases. *)
Inductive is_a : phone_class -> phone_class -> Prop :=
| is_a_refl : forall c, is_a c c
| is_a_base : forall c b d, base_class c = Some b -> is_a b d -> is_a c d.

Definition phone_class_eqb (c d : phone_class) : bool :=
  match c, d with
  | Phone_c, Phone_c
  | Smartphone_c, Smartphone_c
  | BasicPhone_c, BasicPhone_c
  | NokiaSmartphone_c, NokiaSmartphone_c
  | NokiaBasicPhone_c, NokiaBasicPhone_c
  | SamsungSmartphone_c, SamsungSmartphone_c
  | SamsungBasicPhone_c, SamsungBasicPhone_c
  | HTCSmartphone_c, HTCSmartphone_c
  | HTCBasicPhone_c, HTCBasicPhone_c => true
  | _, _ => false
  end.

(** The decision of [is_a] by a walk of at most [n] base links. *)
Fixpoint is_a_upto (n : nat) (c d : phone_class) : bool :=
  phone_class_eqb c d ||
  match n, base_class c with
  | S n', Some b => is_a_upto n' b d
  | _, _ => false
  end.

(** No chain of bases is longer than two links. *)
Definition is_ab (c d : phone_class) : bool := is_a_upto 2 c d.

(** The interface [Phone]: one pure virtual member. *)
Class Phone (T : Type) : Type := { getName : T -> string }.

(** The dynamic class of an object seen through a pointer to [T]. *)
Class Dynamic (T : Type) : Type := { class_of : T -> phone_class }.

(** The objects a [Smartphone] pointer can designate: [Smartphone] is
    abstract, so these are the objects of its three concrete classes, each
    with its [name] member.  A constructor is the C++ constructor
    [name(name)]. *)
Inductive Smartphone : Type :=
| NokiaSmartphone (name : string)
| SamsungSmartphone (name : string)
| HTCSmartphone (name : string).

(** Likewise for [BasicPhone]. *)
Inductive BasicPhone : Type :=
| NokiaBasicPhone (name : string)
| SamsungBasicPhone (name : string)
| HTCBasicPhone (name : string).

(** [std::string getName() override { return name; }], three times. *)
#[export] Instance Smartphone_Phone : Phone Smartphone :=
  {| getName := fun this =>
       match this with
       | NokiaSmartphone name => name
       | SamsungSmartphone name => name
       | HTCSmartphone name => name
       end |}.

#[export] Instance BasicPhone_Phone : Phone BasicPhone :=
  {| getName := fun this =>
       match this with
       | NokiaBasicPhone name => name
       | SamsungBasicPhone name => name
       | HTCBasicPhone name => name
       end |}.

#[export] Instance Smartphone_Dynamic : Dynamic Smartphone :=
  {| class_of := fun this =>
       match this with
       | NokiaSmartphone _ => NokiaSmartphone_c
       | SamsungSmartphone _ => SamsungSmartphone_c
       | HTCSmartphone _ => HTCSmartphone_c
       end |}.

#[export] Instance BasicPhone_Dynamic : Dynamic BasicPhone :=
  {| class_of := fun this =>
       match this with
       | NokiaBasicPhone _ => NokiaBasicPhone_c
       | SamsungBasicPhone _ => SamsungBasicPhone_c
       | HTCBasicPhone _ => HTCBasicPhone_c
       end |}.

(** The objects a [PhoneFactory] pointer can designate: the concrete
    factories have no data member. *)
Inductive PhoneFactory : Type := NokiaFactory | SamsungFactory | HTCFactory.

(** [virtual std::shared_ptr<Smartphone> createSmartphone(std::string)] *)
Definition createSmartphone (this : PhoneFactory) (name : string)
  : shared_ptr Smartphone :=
  match this with
  | NokiaFactory => make_shared (NokiaSmartphone name)
  | SamsungFactory => make_shared (SamsungSmartphone name)
  | HTCFactory => make_shared (HTCSmartphone name)
  end.

(** [virtual std::shared_ptr<BasicPhone> createBasicPhone(std::string)] *)
Definition createBasicPhone (this : PhoneFactory) (name : string)
  : shared_ptr BasicPhone :=
  match this with
  | NokiaFactory => make_shared (NokiaBasicPhone name)
  | SamsungFactory => make_shared (SamsungBasicPhone name)
  | HTCFactory => make_shared (HTCBasicPhone name)
  end.

(** The variables an iteration of the driver loop works on: the three
    pointers declared in the body and [man], declared before the loop. *)
Record locals : Type := mkLocals {
  factory : shared_ptr PhoneFactory;
  smartphone : shared_ptr Smartphone;
  basicPhone : shared_ptr BasicPhone;
  man : string
}.

(** The state at the [switch]: the pointers are default constructed. *)
Definition declare_locals (man0 : string) : locals :=
  {| factory := null_ptr; smartphone := null_ptr; basicPhone := null_ptr;
     man := man0 |}.

(** One [case] of the switch: build the factory, call it twice through the
    pointer, name the manufacturer. *)
Definition switch_case (fac : PhoneFactory) (sname bname mname : string)
  : M locals :=
  let factory := make_shared fac in
  this <- deref factory ;;
  let smartphone := createSmartphone this sname in
  this <- deref factory ;;
  let basicPhone := createBasicPhone this bname in
  ret {| factory := factory; smartphone := smartphone;
         basicPhone := basicPhone; man := mname |}.

(** [switch (i) { case 0: ... case 1: ... case 2: ... }]: there is no
    [default], any other value leaves the variables as they are. *)
Definition switch_stmt (i : Z) (l : locals) : M locals :=
  match i with
  | 0 => switch_case NokiaFactory "Nokia Smartphone" "Nokia Basic Phone" "Nokia"
  | 1 => switch_case SamsungFactory
           "Samsung Smartphone" "Samsung Basic Phone" "Samsung"
  | 2 => switch_case HTCFactory "HTC Smartphone" "HTC Basic Phone" "HTC"
  | _ => ret l
  end.

(** The three output statements that end an iteration. *)
Definition print_stmts (l : locals) : M unit :=
  cout_write "Manufacturer: " ;; cout_write (man l) ;; cout_write nl ;;
  cout_write "Smarphone: " ;;
  s <- deref (smartphone l) ;; cout_write (getName s) ;; cout_write nl ;;
  cout_write "Basic phone: " ;;
  b <- deref (basicPhone l) ;; cout_write (getName b) ;; cout_write nl.

(** The body of the loop, from the value of [man] it finds to the one it
    leaves. *)
Definition loop_body (i : Z) (man0 : string) : M string :=
  l <- switch_stmt i (declare_locals man0) ;;
  print_stmts l ;;
  ret (man l).

(** [for (int i = 0; i < 3; ++i) body], from the current [i]. *)
Fixpoint for_loop (fuel : nat) (i : Z) (man0 : string) : M string :=
  match fuel with
  | O => out_of_fuel
  | S fuel' =>
      if i <? 3
      then man1 <- loop_body i man0 ;;
           i' <- pre_incr i ;;
           for_loop fuel' i' man1
      else ret man0
  end.

(** [int main()]: the value returned is the exit code of the process. *)
Definition main (fuel : nat) : M Z :=
  let man0 := EmptyString in
  for_loop fuel 0 man0 ;;
  ret 0.

(** A run of the executable on a given standard input, with nothing written
    yet. *)
Definition start (input : string) : World :=
  {| cin := input; cout := EmptyString |}.

Definition run (fuel : nat) (input : string) : outcome Z :=
  main fuel (start input).

(** What a finished run shows to its environment. *)
Definition observe (o : outcome Z) : option (string * Z) :=
  match o with
  | Ok code w => Some (cout w, code)
  | _ => None
  end.

End PhoneDemo.

(** ** The output the documentation announces *)

Module Expected.

(** The text of a list of lines, each closed by the terminator. *)
Definition unlines (l : list string) : string :=
  fold_right (fun ln acc => ln ++ nl ++ acc) EmptyString l.

(** The manufacturers, by driver index. *)
Definition manufacturers : list string := ["Nokia"; "Samsung"; "HTC"].

(** The three lines of one manufacturer. *)
Definition phone_block (name : string) : list string :=
  [ "Manufacturer: " ++ name;
    "Smarphone: " ++ name ++ " Smartphone";
    "Basic phone: " ++ name ++ " Basic Phone" ].

Definition phone_lines : list string := flat_map phone_block manufacturers.

Definition shape_lines : list string := ["Draw Square!"; "Draw Circle!"].

(** Line [a] is written and, later, line [b]. *)
Definition lines_in_order (out a b : string) : Prop :=
  exists l1 l2 l3, lines out = (l1 ++ a :: l2 ++ b :: l3)%list.

(** The process after [s] was written on its standard output. *)
Definition write (w : World) (s : string) : World :=
  {| cin := cin w; cout := cout w ++ s |}.

End Expected.

(** ** The line of each shape *)

Module Rendering.

(** The line the [Draw] of the class of [s] writes, without its
    terminator. *)
Definition drawn_line (s : ShapeDemo.Shape) : string :=
  match s with
  | ShapeDemo.Circle _ _ => "Draw Circle!"
  | ShapeDemo.Square _ _ => "Draw Square!"
  end.

End Rendering.

Import ShapeDemo PhoneDemo Expected.

(** ** Strings and streams *)

Section Strings.

Lemma string_app_assoc (a b c : string) : (a ++ b) ++ c = a ++ (b ++ c).
Proof.
  induction a as [|ch a IH]; simpl; [reflexivity|].
  now rewrite IH.
Qed.

Lemma string_app_nil_r (a : string) : a ++ EmptyString = a.
Proof.
  induction a as [|ch a IH]; simpl; congruence.
Qed.

Lemma prefix_app (n post : string) : prefix n (n ++ post) = true.
Proof.
  induction n as [|ch n IH]; simpl.
  - now destruct post.
  - destruct (ascii_dec ch ch) as [_|ne]; [exact IH | now elim ne].
Qed.

Lemma prefix_inv (n h : string) :
  prefix n h = true -> exists post, h = n ++ post.
Proof.
  revert h; induction n as [|ch n IH]; intros h H.
  - now exists h.
  - destruct h as [|ch' h]; simpl in H; [discriminate|].
    destruct (ascii_dec ch ch') as [->|_]; [|discriminate].
    destruct (IH _ H) as [post ->].
    now exists post.
Qed.

Lemma contains_prefix (n h : string) :
  prefix n h = true -> contains n h = true.
Proof.
  destruct h; cbn [contains]; intros ->; reflexivity.
Qed.

Lemma contains_app (pre n post : string) :
  contains n (pre ++ n ++ post) = true.
Proof.
  induction pre as [|ch pre IH].
  - change (EmptyString ++ n ++ post) with (n ++ post).
    apply contains_prefix, prefix_app.
  - simpl. rewrite IH. apply orb_true_r.
Qed.

Lemma contains_inv (n h : string) :
  contains n h = true -> exists pre post, h = pre ++ n ++ post.
Proof.
  induction h as [|ch h IH]; cbn [contains]; intros H.
  - rewrite orb_false_r in H.
    destruct (prefix_inv _ _ H) as [post E].
    now exists EmptyString, post.
  - apply orb_true_iff in H as [H|H].
    + destruct (prefix_inv _ _ H) as [post E].
      now exists EmptyString, post.
    + destruct (IH H) as (pre & post & ->).
      now exists (String ch pre), post.
Qed.

Lemma write_write (w : World) (a b : string) :
  write (write w a) b = write w (a ++ b).
Proof.
  unfold write; simpl. now rewrite string_app_assoc.
Qed.

Lemma write_nil (w : World) : write w EmptyString = w.
Proof.
  destruct w as [i o]; unfold write; simpl. now rewrite string_app_nil_r.
Qed.

Lemma cout_write_eq (s : string) (w : World) :
  cout_write s w = Ok tt (write w s).
Proof. reflexivity. Qed.

End Strings.

(** ** The shape demo: what is built and what is drawn *)

Section ShapeFacts.

(** Drawing a shape writes one line and nothing else happens. *)
Lemma Draw_writes (s : Shape) :
  exists line, forall w, Draw s w = Ok tt (write w (line ++ nl)).
Proof.
  destruct s; [exists "Draw Circle!" | exists "Draw Square!"]; reflexivity.
Qed.

(** The loop of [drawShapes] over any list: when it gets to the end from
    one state of the process, it gets to the end from every state, and
    writes the same text. *)
Lemma draw_loop_frame (l : list (shared_ptr Shape)) :
  forall (w w1 : World) (u : unit),
    for_each (fun shape => s <- deref shape ;; Draw s) l w = Ok u w1 ->
    exists out,
      w1 = write w out /\
      forall w2,
        for_each (fun shape => s <- deref shape ;; Draw s) l w2
        = Ok tt (write w2 out).
Proof.
  induction l as [|p l IH]; intros w w1 u H.
  - inversion H; subst.
    exists EmptyString; split; [now rewrite write_nil|].
    intros w2; cbn. now rewrite write_nil.
  - destruct p as [s|]; [|discriminate H].
    destruct (Draw_writes s) as [line Hs].
    cbn in H. unfold bind in H. cbn in H. rewrite Hs in H.
    destruct (IH _ _ _ H) as (out & -> & Hall).
    exists ((line ++ nl) ++ out); split; [apply write_write|].
    intros w2. cbn. unfold bind. cbn. rewrite Hs, Hall.
    now rewrite write_write.
Qed.

Lemma drawShapes_fresh (w : World) :
  drawShapes DrwManager_ctor w
  = Ok DrwManager_ctor (write w (unlines shape_lines)).
Proof.
  unfold drawShapes, bind; cbn.
  unfold write; cbn. now rewrite string_app_assoc.
Qed.

(** C5. Whatever center and size it is constructed with (zero and negative
    sizes included), a [Circle] answers "Circle" to [GetType] and a [Square]
    answers "Square": the label the derived constructor stores over the
    "BaseFigure" of the base constructor. *)
Theorem GetType_fixed_label :
  forall (cnt : Point) (r : Z),
    GetType (Circle_ctor cnt r) = "Circle" /\
    GetType (Square_ctor cnt r) = "Square" /\
    type (Shape_ctor cnt) = "BaseFigure".
Proof.
  intros cnt r. unfold GetType, Circle_ctor, Square_ctor.
  repeat split.
Qed.

(** C3. A freshly constructed [DrwManager] holds two shapes: first a
    [Square], then a [Circle], both with center (0, 0) and size 3; its
    [drawShapes] returns and writes exactly the two lines "Draw Square!" and
    "Draw Circle!", in that order. *)
Theorem DrwManager_fresh_contents_and_output :
  exists (sq ci : ShapeBase),
    shapeList DrwManager_ctor
    = [make_shared (Square sq 3); make_shared (Circle ci 3)] /\
    center sq = {| x := 0; y := 0 |} /\
    center ci = {| x := 0; y := 0 |} /\
    GetType (Square sq 3) = "Square" /\
    GetType (Circle ci 3) = "Circle" /\
    forall input : string,
      exists w',
        drawShapes DrwManager_ctor (start input) = Ok DrwManager_ctor w' /\
        cin w' = input /\
        lines (cout w') = ["Draw Square!"; "Draw Circle!"].
Proof.
  do 2 eexists. split; [reflexivity|].
  repeat split.
  intros input. rewrite drawShapes_fresh.
  eexists; split; [reflexivity|]. split; reflexivity.
Qed.

(** C7. Two calls of [drawShapes] in sequence on the manager the
    constructor builds write the two lines twice, in the same order, and
    leave the manager as it was; and on any manager, a call that returns
    leaves the manager unchanged and a second call then writes the same text
    again. *)
Theorem drawShapes_twice_same_lines :
  (forall w : World,
      (m1 <- drawShapes DrwManager_ctor ;;
       m2 <- drawShapes m1 ;;
       ret (m1, m2)) w
      = Ok (DrwManager_ctor, DrwManager_ctor)
           (write (write w (unlines shape_lines)) (unlines shape_lines))) /\
  (forall (m m1 : DrwManager) (w w1 : World),
      drawShapes m w = Ok m1 w1 ->
      m1 = m /\
      shapeList m1 = shapeList m /\
      exists out,
        w1 = write w out /\
        drawShapes m1 w1 = Ok m (write w1 out)).
Proof.
  split.
  - intros w. unfold bind at 1. rewrite drawShapes_fresh.
    unfold bind at 1. rewrite drawShapes_fresh. reflexivity.
  - intros m m1 w w1 H. unfold drawShapes, bind in H.
    destruct (for_each _ (shapeList m) w) as [u w'| |] eqn:E;
      try discriminate.
    inversion H; subst m1 w1; clear H.
    destruct (draw_loop_frame _ _ _ _ E) as (out & -> & Hall).
    split; [reflexivity|]. split; [reflexivity|].
    exists out; split; [reflexivity|].
    unfold drawShapes, bind. now rewrite Hall.
Qed.

(** The general half of the theorem, at the manager of the program. *)
Lemma drawShapes_twice_same_lines_witness :
  drawShapes DrwManager_ctor (start EmptyString)
  = Ok DrwManager_ctor (write (start EmptyString) (unlines shape_lines)) /\
  (DrwManager_ctor = DrwManager_ctor /\
   shapeList DrwManager_ctor = shapeList DrwManager_ctor /\
   exists out,
     write (start EmptyString) (unlines shape_lines)
     = write (start EmptyString) out /\
     drawShapes DrwManager_ctor
       (write (start EmptyString) (unlines shape_lines))
     = Ok DrwManager_ctor
          (write (write (start EmptyString) (unlines shape_lines)) out)).
Proof.
  split; [reflexivity|].
  apply (proj2 drawShapes_twice_same_lines
           DrwManager_ctor DrwManager_ctor (start EmptyString)).
  reflexivity.
Defined.

End ShapeFacts.

(** ** The phone demo: products and families *)

Section PhoneFacts.

Lemma is_ab_sound (c d : phone_class) : is_ab c d = true -> is_a c d.
Proof.
  destruct c, d; intros H; try discriminate H;
    repeat (first [apply is_a_refl | eapply is_a_base; [reflexivity|]]).
Qed.

Lemma is_ab_complete (c d : phone_class) : is_a c d -> is_ab c d = true.
Proof.
  induction 1 as [c | c b d Hb _ IH].
  - now destruct c.
  - destruct c; inversion Hb; subst b; destruct d;
      first [reflexivity | discriminate IH].
Qed.

Lemma is_a_iff (c d : phone_class) : is_a c d <-> is_ab c d = true.
Proof.
  split; [apply is_ab_complete | apply is_ab_sound].
Qed.

Lemma not_is_a (c d : phone_class) : is_ab c d = false -> ~ is_a c d.
Proof.
  intros H Ha. apply is_ab_complete in Ha. congruence.
Qed.

(** C4. For each of the three factories and every name, the empty one
    included, the pointer [createSmartphone] returns is not empty and
    [getName] on its object gives back that very name; the same holds of
    [createBasicPhone]. *)
Theorem created_phone_keeps_name :
  forall (f : PhoneFactory) (N : string),
    (exists s : Smartphone,
        createSmartphone f N = make_shared s /\ getName s = N) /\
    (exists b : BasicPhone,
        createBasicPhone f N = make_shared b /\ getName b = N) /\
    (forall w : World,
        (s <- deref (createSmartphone f N) ;; ret (getName s)) w = Ok N w /\
        (b <- deref (createBasicPhone f N) ;; ret (getName b)) w = Ok N w).
Proof.
  intros f N. destruct f; cbn.
  all: split; [eexists; split; reflexivity|].
  all: split; [eexists; split; reflexivity|].
  all: intros w; split; reflexivity.
Qed.

(** C6. For each factory and every name, the object [createSmartphone]
    builds is of a class derived from [Smartphone] and not from
    [BasicPhone], the object [createBasicPhone] builds from the same name is
    of a class derived from [BasicPhone] and not from [Smartphone]; the two
    classes differ, and no class of the hierarchy derives from both
    families. *)
Theorem factory_products_in_distinct_families :
  forall (f : PhoneFactory) (N : string),
    exists (s : Smartphone) (b : BasicPhone),
      createSmartphone f N = make_shared s /\
      createBasicPhone f N = make_shared b /\
      is_a (class_of s) Smartphone_c /\
      is_a (class_of b) BasicPhone_c /\
      ~ is_a (class_of s) BasicPhone_c /\
      ~ is_a (class_of b) Smartphone_c /\
      class_of s <> class_of b /\
      Smartphone_c <> BasicPhone_c /\
      forall c, is_ab c Smartphone_c && is_ab c BasicPhone_c = false.
Proof.
  intros f N. destruct f; cbn; do 2 eexists.
  all: do 2 (split; [reflexivity|]); cbn.
  all: split; [apply is_ab_sound; reflexivity|].
  all: split; [apply is_ab_sound; reflexivity|].
  all: split; [apply not_is_a; reflexivity|].
  all: split; [apply not_is_a; reflexivity|].
  all: split; [discriminate|].
  all: split; [discriminate|].
  all: intros c; destruct c; reflexivity.
Qed.

End PhoneFacts.

(** ** The driver *)

Section DriverFacts.

(** The switch on an index of the loop. *)
Lemma switch_stmt_in_range (i : Z) (l : locals) (w : World) :
  0 <= i < 3 ->
  exists (fac : PhoneFactory) (s : Smartphone) (b : BasicPhone) (name : string),
    nth_error manufacturers (Z.to_nat i) = Some name /\
    getName s = name ++ " Smartphone" /\
    getName b = name ++ " Basic Phone" /\
    switch_stmt i l w
    = Ok {| factory := make_shared fac; smartphone := make_shared s;
            basicPhone := make_shared b; man := name |} w.
Proof.
  intros Hi.
  assert (i = 0 \/ i = 1 \/ i = 2) as [-> | [-> | ->]] by lia.
  - now exists NokiaFactory, (NokiaSmartphone "Nokia Smartphone"),
      (NokiaBasicPhone "Nokia Basic Phone"), "Nokia".
  - now exists SamsungFactory, (SamsungSmartphone "Samsung Smartphone"),
      (SamsungBasicPhone "Samsung Basic Phone"), "Samsung".
  - now exists HTCFactory, (HTCSmartphone "HTC Smartphone"),
      (HTCBasicPhone "HTC Basic Phone"), "HTC".
Qed.


(** The output statements, once the two product pointers are set. *)
Lemma print_stmts_set
  (fac : shared_ptr PhoneFactory) (s : Smartphone) (b : BasicPhone)
  (name : string) (w : World) :
  print_stmts {| factory := fac; smartphone := make_shared s;
                 basicPhone := make_shared b; man := name |} w
  = Ok tt (write w (unlines [ "Manufacturer: " ++ name;
                              "Smarphone: " ++ getName s;
                              "Basic phone: " ++ getName b ])).
Proof.
  unfold print_stmts, bind;
    cbn [deref make_shared ret smartphone basicPhone man].
  rewrite !cout_write_eq, !write_write.
  reflexivity.
Qed.


Lemma loop_body_in_range (i : Z) (man0 name : string) (w : World) :
  0 <= i < 3 ->
  nth_error manufacturers (Z.to_nat i) = Some name ->
  loop_body i man0 w = Ok name (write w (unlines (phone_block name))).
Proof.
  intros Hi Hn.
  destruct (switch_stmt_in_range i (declare_locals man0) w Hi)
    as (fac & s & b & name' & Hn' & Hs & Hb & Hsw).
  rewrite Hn in Hn'; inversion Hn'; subst name'; clear Hn'.
  unfold loop_body, bind. rewrite Hsw, print_stmts_set, Hs, Hb.
  reflexivity.
Qed.


(** One turn of the loop. *)
Lemma for_loop_step (fuel : nat) (i : Z) (man0 name : string) (w : World) :
  0 <= i < 3 ->
  nth_error manufacturers (Z.to_nat i) = Some name ->
  for_loop (S fuel) i man0 w
  = for_loop fuel (i + 1) name (write w (unlines (phone_block name))).
Proof.
  intros Hi Hn. cbn [for_loop].
  replace (i <? 3) with true by (symmetry; apply Z.ltb_lt; lia).
  unfold bind. rewrite (loop_body_in_range i man0 name w Hi Hn).
  unfold pre_incr.
  replace (i <? INT_MAX) with true
    by (symmetry; apply Z.ltb_lt; unfold INT_MAX; lia).
  reflexivity.
Qed.

(** The test that ends it. *)
Lemma for_loop_exit (fuel : nat) (i : Z) (man0 : string) (w : World) :
  3 <= i -> for_loop (S fuel) i man0 w = Ok man0 w.
Proof.
  intros Hi. cbn [for_loop].
  replace (i <? 3) with false by (symmetry; apply Z.ltb_ge; lia).
  reflexivity.
Qed.

(** Three turns and a last test: four units of fuel are enough, and any
    larger amount gives the same. *)
Lemma main_enough_fuel (fuel : nat) (w : World) :
  (4 <= fuel)%nat ->
  main fuel w = Ok 0 (write w (unlines phone_lines)).
Proof.
  intros Hf.
  destruct fuel as [|[|[|[|fuel]]]]; try lia.
  unfold main, bind.
  rewrite (for_loop_step _ 0 _ "Nokia") by (try lia; reflexivity).
  rewrite (for_loop_step _ (0 + 1) _ "Samsung") by (try lia; reflexivity).
  rewrite (for_loop_step _ (0 + 1 + 1) _ "HTC") by (try lia; reflexivity).
  rewrite for_loop_exit by lia.
  rewrite !write_write. reflexivity.
Qed.

(** With less, the model stops before the program does. *)
Lemma main_short_fuel (fuel : nat) (w : World) :
  (fuel < 4)%nat -> main fuel w = OutOfFuel.
Proof.
  intros Hf.
  destruct fuel as [|[|[|[|fuel]]]]; try lia; reflexivity.
Qed.

End DriverFacts.

(** ** The program as a whole *)

Section ProgramFacts.

(** C2. The phone demo returns having written exactly nine lines: for
    Nokia, then Samsung, then HTC (the manufacturers of the loop indices 0,
    1 and 2) the three lines [Manufacturer: <Name>],
    [Smarphone: <Name> Smartphone] and [Basic phone: <Name> Basic Phone],
    the second label being spelled "Smarphone". *)
Theorem phone_demo_prints_nine_lines :
  forall (fuel : nat) (input : string),
    (4 <= fuel)%nat ->
    exists w',
      run fuel input = Ok 0 w' /\
      lines (cout w')
      = [ "Manufacturer: Nokia";
          "Smarphone: Nokia Smartphone";
          "Basic phone: Nokia Basic Phone";
          "Manufacturer: Samsung";
          "Smarphone: Samsung Smartphone";
          "Basic phone: Samsung Basic Phone";
          "Manufacturer: HTC";
          "Smarphone: HTC Smartphone";
          "Basic phone: HTC Basic Phone" ] /\
      lines (cout w')
      = (phone_block "Nokia" ++ phone_block "Samsung" ++ phone_block "HTC")%list /\
      List.length (lines (cout w')) = 9%nat /\
      forall (man0 : string) (w : World),
        loop_body 0 man0 w
        = Ok "Nokia" (write w (unlines (phone_block "Nokia"))) /\
        loop_body 1 man0 w
        = Ok "Samsung" (write w (unlines (phone_block "Samsung"))) /\
        loop_body 2 man0 w
        = Ok "HTC" (write w (unlines (phone_block "HTC"))).
Proof.
  intros fuel input Hf. unfold run.
  rewrite (main_enough_fuel fuel (start input) Hf).
  eexists; split; [reflexivity|].
  repeat split; apply loop_body_in_range; (lia || reflexivity).
Qed.

Lemma phone_demo_prints_nine_lines_witness :
  (4 <= 4)%nat /\
  exists w',
    run 4 "any input" = Ok 0 w' /\
    List.length (lines (cout w')) = 9%nat.
Proof.
  split; [lia|].
  destruct (phone_demo_prints_nine_lines 4 "any input" (le_n 4))
    as (w' & Hrun & _ & _ & Hlen & _).
  exists w'. split; [exact Hrun | exact Hlen].
Defined.

(** C8. The program terminates with exit code 0: run with enough fuel for
    its three turns, [main] returns 0; and whatever the fuel and the state
    of the streams, it never returns another code and never faults. *)
Theorem main_exits_zero :
  forall (fuel : nat) (w : World),
    (4 <= fuel)%nat ->
    (exists w', main fuel w = Ok 0 w') /\
    (forall (fuel' : nat) (w0 w0' : World) (code : Z),
        main fuel' w0 = Ok code w0' -> code = 0) /\
    (forall (fuel' : nat) (w0 : World) (f : fault),
        main fuel' w0 <> Fault f).
Proof.
  intros fuel w Hf. split; [|split].
  - rewrite (main_enough_fuel fuel w Hf). now eexists.
  - intros fuel' w0 w0' code H.
    destruct (le_lt_dec 4 fuel') as [Hge|Hlt].
    + rewrite (main_enough_fuel _ _ Hge) in H. congruence.
    + rewrite (main_short_fuel _ _ Hlt) in H. discriminate H.
  - intros fuel' w0 f H.
    destruct (le_lt_dec 4 fuel') as [Hge|Hlt].
    + rewrite (main_enough_fuel _ _ Hge) in H. discriminate H.
    + rewrite (main_short_fuel _ _ Hlt) in H. discriminate H.
Qed.

Lemma main_exits_zero_witness :
  (4 <= 7)%nat /\ exists w', main 7 (start "ignored") = Ok 0 w'.
Proof.
  split; [lia|].
  apply (main_exits_zero 7 (start "ignored")). lia.
Defined.

(** C9. For every index 0, 1 or 2 of the driver loop, the switch returns
    with [factory], [smartphone] and [basicPhone] all set to non-empty
    pointers (the calls through [factory] inside the case included), so
    the output statements that follow dereference no empty pointer and the
    iteration does not fault. *)
Theorem switch_sets_pointers_before_use :
  forall (i : Z) (man0 : string) (w : World),
    0 <= i < 3 ->
    exists l : locals,
      switch_stmt i (declare_locals man0) w = Ok l w /\
      factory l <> null_ptr /\
      smartphone l <> null_ptr /\
      basicPhone l <> null_ptr /\
      (exists w', print_stmts l w = Ok tt w') /\
      (forall f : fault, loop_body i man0 w <> Fault f).
Proof.
  intros i man0 w Hi.
  destruct (switch_stmt_in_range i (declare_locals man0) w Hi)
    as (fac & s & b & name & Hn & _ & _ & Hsw).
  eexists; split; [exact Hsw|].
  cbn [factory smartphone basicPhone].
  repeat (split; [discriminate|]).
  split.
  - rewrite print_stmts_set. now eexists.
  - intros f. rewrite (loop_body_in_range i man0 name w Hi Hn).
    discriminate.
Qed.

Lemma switch_sets_pointers_before_use_witness :
  0 <= 1 < 3 /\
  exists l : locals,
    switch_stmt 1 (declare_locals "Nokia") (start EmptyString)
    = Ok l (start EmptyString) /\
    smartphone l <> null_ptr /\ basicPhone l <> null_ptr.
Proof.
  split; [lia|].
  destruct (switch_sets_pointers_before_use 1 "Nokia" (start EmptyString))
    as (l & Hsw & _ & Hs & Hb & _); [lia|].
  exists l. repeat split; assumption.
Defined.

(** C10. The program is deterministic and reads nothing: two runs, on any
    two contents of the standard input (and any two sufficient amounts of
    fuel), finish with the same standard output and the same exit code, and
    a run leaves its input unread. *)
Theorem runs_are_deterministic :
  forall (fuel1 fuel2 : nat) (input1 input2 : string),
    (4 <= fuel1)%nat -> (4 <= fuel2)%nat ->
    exists (out : string) (code : Z),
      observe (run fuel1 input1) = Some (out, code) /\
      observe (run fuel2 input2) = Some (out, code) /\
      exists w1, run fuel1 input1 = Ok code w1 /\ cin w1 = input1.
Proof.
  intros fuel1 fuel2 input1 input2 H1 H2. unfold run.
  rewrite (main_enough_fuel _ (start input1) H1).
  rewrite (main_enough_fuel _ (start input2) H2).
  do 2 eexists. split; [reflexivity|]. split; [reflexivity|].
  eexists; split; reflexivity.
Qed.

Lemma runs_are_deterministic_witness :
  (4 <= 4)%nat /\ (4 <= 9)%nat /\
  observe (run 4 "first input") = observe (run 9 EmptyString).
Proof.
  split; [lia|]. split; [lia|].
  destruct (runs_are_deterministic 4 9 "first input" EmptyString)
    as (out & code & E1 & E2 & _); [lia | lia |].
  rewrite E1, E2. reflexivity.
Defined.

(** The claim C1 as it is written fails on the program: a run returns
    without having written the line "Draw Square!" followed, later, by the
    line "Draw Circle!". *)
Lemma main_output_lacks_shape_lines :
  exists w',
    run 4 EmptyString = Ok 0 w' /\
    ~ lines_in_order (cout w') "Draw Square!" "Draw Circle!".
Proof.
  eexists; split; [vm_compute; reflexivity|].
  intros (l1 & l2 & l3 & H).
  assert (In "Draw Square!" (l1 ++ "Draw Square!" :: l2 ++ "Draw Circle!" :: l3)%list)
    as Hin by apply in_elt.
  rewrite <- H in Hin. vm_compute in Hin.
  repeat (destruct Hin as [Hin|Hin]; [discriminate Hin|]).
  exact Hin.
Qed.

(** C1, amended. [main] runs the phone demo only and never builds a
    [DrwManager]: the standard output of the executable is the nine phone
    lines, neither "Draw Square!" nor "Draw Circle!" is one of its lines and
    the text "Draw" occurs nowhere in it.  The two shape lines, "Draw
    Square!" and then "Draw Circle!", are what [drawShapes] writes when it
    is called on a freshly constructed [DrwManager]. *)
Theorem main_runs_phone_demo_only :
  forall (fuel : nat) (input : string),
    (4 <= fuel)%nat ->
    (exists w',
        run fuel input = Ok 0 w' /\
        lines (cout w') = phone_lines /\
        ~ In "Draw Square!" (lines (cout w')) /\
        ~ In "Draw Circle!" (lines (cout w')) /\
        contains "Draw" (cout w') = false) /\
    (exists w',
        drawShapes DrwManager_ctor (start input) = Ok DrwManager_ctor w' /\
        lines_in_order (cout w') "Draw Square!" "Draw Circle!").
Proof.
  intros fuel input Hf. split.
  - unfold run. rewrite (main_enough_fuel fuel (start input) Hf).
    eexists; split; [reflexivity|].
    split; [vm_compute; reflexivity|].
    split; [|split; [|vm_compute; reflexivity]].
    all: intros Hin; vm_compute in Hin.
    all: repeat (destruct Hin as [Hin|Hin]; [discriminate Hin|]).
    all: exact Hin.
  - rewrite drawShapes_fresh.
    eexists; split; [reflexivity|].
    exists [], [], []. reflexivity.
Qed.

Lemma main_runs_phone_demo_only_witness :
  (4 <= 5)%nat /\
  exists w',
    run 5 "unread" = Ok 0 w' /\ contains "Draw" (cout w') = false.
Proof.
  split; [lia|].
  destruct (main_runs_phone_demo_only 5 "unread") as [(w' & Hr & _ & _ & _ & Hc) _];
    [lia|].
  exists w'. split; [exact Hr | exact Hc].
Defined.

End ProgramFacts.

(** ** Beyond the two demos: the operations on any input *)

Import Rendering.

Section DrawingAnyList.

Lemma Draw_drawn_line (s : Shape) (w : World) :
  Draw s w = Ok tt (write w (drawn_line s ++ nl)).
Proof. destruct s; reflexivity. Qed.

(** The lines of a text that starts with a line of a shape. *)
Lemma lines_drawn_line (s : Shape) (rest : string) :
  lines (drawn_line s ++ nl ++ rest) = drawn_line s :: lines rest.
Proof. destruct s; reflexivity. Qed.

Lemma lines_unlines_drawn (shapes : list Shape) :
  lines (unlines (map drawn_line shapes)) = map drawn_line shapes.
Proof.
  induction shapes as [|s shapes IH]; [reflexivity|].
  cbn [map unlines fold_right].
  change (fold_right (fun ln acc => ln ++ nl ++ acc) EmptyString
            (map drawn_line shapes))
    with (unlines (map drawn_line shapes)).
  now rewrite lines_drawn_line, IH.
Qed.

(** The loop over pointers that all designate a shape. *)
Lemma draw_loop_all_set (shapes : list Shape) (w : World) :
  for_each (fun shape => s <- deref shape ;; Draw s)
    (map make_shared shapes) w
  = Ok tt (write w (unlines (map drawn_line shapes))).
Proof.
  revert w; induction shapes as [|s shapes IH]; intros w.
  - cbn. now rewrite write_nil.
  - cbn [map for_each]. unfold bind at 1. unfold bind at 1.
    cbn [make_shared deref ret]. rewrite Draw_drawn_line, IH, write_write.
    do 2 f_equal. cbn [unlines fold_right]. apply string_app_assoc.
Qed.

(** The loop over a list that holds an empty pointer. *)
Lemma draw_loop_some_unset (l : list (shared_ptr Shape)) (w : World) :
  In null_ptr l ->
  for_each (fun shape => s <- deref shape ;; Draw s) l w = Fault NullDeref.
Proof.
  revert w; induction l as [|p l IH]; intros w Hin; [destruct Hin|].
  destruct p as [s|].
  - destruct Hin as [Hp|Hin]; [discriminate Hp|].
    cbn [for_each]. unfold bind at 1. unfold bind at 1.
    cbn [deref ret]. rewrite Draw_drawn_line. now apply IH.
  - reflexivity.
Qed.

(** A list of pointers without an empty one is a list of shapes. *)
Lemma all_set_map (l : list (shared_ptr Shape)) :
  ~ In null_ptr l -> exists shapes, l = map make_shared shapes.
Proof.
  induction l as [|p l IH]; intros Hn.
  - now exists [].
  - destruct p as [s|]; [|elim Hn; now left].
    destruct IH as [shapes ->]; [intros H; apply Hn; now right|].
    now exists (s :: shapes).
Qed.

(** X1. On a manager whose pointers all designate a shape, whatever their
    number, [drawShapes] returns the manager as it was, reads nothing, and
    writes one line per shape, in the order of the list: the line of the
    class of each shape.  On an empty list it writes nothing. *)
Theorem drawShapes_one_line_per_shape :
  forall (shapes : list Shape) (input : string),
    exists w',
      drawShapes {| shapeList := map make_shared shapes |} (start input)
      = Ok {| shapeList := map make_shared shapes |} w' /\
      cin w' = input /\
      lines (cout w') = map drawn_line shapes /\
      List.length (lines (cout w')) = List.length shapes.
Proof.
  intros shapes input. unfold drawShapes, bind; cbn [shapeList].
  rewrite draw_loop_all_set.
  eexists; split; [reflexivity|]. split; [reflexivity|].
  cbn [cout write start]. cbn [append].
  rewrite lines_unlines_drawn. split; [reflexivity|].
  apply length_map.
Qed.

(** X2. [drawShapes] faults exactly when the list of the manager holds an
    empty pointer, and the fault is then the dereference of that pointer;
    otherwise it returns. *)
Theorem drawShapes_faults_iff_empty_pointer :
  forall (m : DrwManager) (w : World),
    (In null_ptr (shapeList m) <-> drawShapes m w = Fault NullDeref) /\
    (~ In null_ptr (shapeList m) <-> exists w', drawShapes m w = Ok m w').
Proof.
  intros [l] w; cbn [shapeList].
  assert (Hset : ~ In null_ptr l ->
                 exists w', drawShapes {| shapeList := l |} w
                            = Ok {| shapeList := l |} w').
  { intros Hn. destruct (all_set_map l Hn) as [shapes ->].
    unfold drawShapes, bind; cbn [shapeList].
    rewrite draw_loop_all_set. now eexists. }
  assert (Hunset : In null_ptr l ->
                   drawShapes {| shapeList := l |} w = Fault NullDeref).
  { intros Hin. unfold drawShapes, bind; cbn [shapeList].
    now rewrite draw_loop_some_unset. }
  assert (Hdec : In null_ptr l \/ ~ In null_ptr l).
  { clear. induction l as [|[s|] l IH].
    - right; intros [].
    - destruct IH as [H|H]; [left; now right|].
      right; intros [E|E]; [discriminate E | exact (H E)].
    - left; now left. }
  split; split.
  - exact Hunset.
  - intros Hf. destruct Hdec as [H|H]; [exact H|].
    destruct (Hset H) as [w' E]. congruence.
  - exact Hset.
  - intros [w' E] Hin. rewrite (Hunset Hin) in E. discriminate E.
Qed.

(** The fault of the theorem, on a list whose second pointer is empty. *)
Lemma drawShapes_faults_iff_empty_pointer_witness :
  In null_ptr [make_shared (Circle_ctor (Point_ctor 1 2) 5); null_ptr] /\
  drawShapes
    {| shapeList := [make_shared (Circle_ctor (Point_ctor 1 2) 5); null_ptr] |}
    (start EmptyString)
  = Fault NullDeref.
Proof.
  assert (Hin : In (@null_ptr Shape)
                  [make_shared (Circle_ctor (Point_ctor 1 2) 5); null_ptr])
    by (right; left; reflexivity).
  split; [exact Hin|].
  apply (proj1 (proj1 (drawShapes_faults_iff_empty_pointer
                         {| shapeList :=
                              [make_shared (Circle_ctor (Point_ctor 1 2) 5);
                               null_ptr] |}
                         (start EmptyString)))).
  exact Hin.
Defined.

End DrawingAnyList.

Section FactoryAnyName.

(** Both creations of a factory succeed and keep the names. *)
Lemma created_phone_keeps_name_parts
  (f : PhoneFactory) (sN bN : string) :
  exists (s : Smartphone) (b : BasicPhone),
    createSmartphone f sN = make_shared s /\
    createBasicPhone f bN = make_shared b /\
    getName s = sN /\ getName b = bN.
Proof.
  destruct f; do 2 eexists; repeat split.
Qed.

(** X3. A product tells which factory built it and with which name: two
    calls of [createSmartphone], or two calls of [createBasicPhone], give
    equal objects only for the same factory and the same name. *)
Theorem create_injective :
  forall (f f' : PhoneFactory) (N N' : string),
    createSmartphone f N = createSmartphone f' N' \/
    createBasicPhone f N = createBasicPhone f' N' ->
    f = f' /\ N = N'.
Proof.
  intros f f' N N' [H|H]; destruct f, f'; cbn in H;
    first [discriminate H | inversion H; split; reflexivity].
Qed.

Lemma create_injective_witness :
  createSmartphone HTCFactory "One" = createSmartphone HTCFactory "One" /\
  HTCFactory = HTCFactory /\ "One" = "One".
Proof.
  split; [reflexivity|].
  apply (create_injective HTCFactory HTCFactory "One" "One").
  left; reflexivity.
Defined.

(** X4. The names go through the factory untouched up to the output: for
    any factory, any two names and any manufacturer text, the output
    statements run on the products the factory creates write the three
    labels followed by exactly those texts, and return. *)
Theorem created_products_print_their_names :
  forall (f : PhoneFactory) (sN bN mN : string) (w : World),
    print_stmts {| factory := make_shared f;
                   smartphone := createSmartphone f sN;
                   basicPhone := createBasicPhone f bN;
                   man := mN |} w
    = Ok tt (write w (unlines [ "Manufacturer: " ++ mN;
                                "Smarphone: " ++ sN;
                                "Basic phone: " ++ bN ])).
Proof.
  intros f sN bN mN w.
  destruct (created_phone_keeps_name_parts f sN bN)
    as (s & b & -> & -> & Hs & Hb).
  now rewrite print_stmts_set, Hs, Hb.
Qed.

End FactoryAnyName.

Section DriverAnyIndex.



(** X6. The loop can be taken up at any of its states: entered with [i]
    between 0 and 3 and fuel for the turns that remain and the last test, it
    returns having written the blocks of the manufacturers of the indices
    from [i] on, in order, and nothing else; entered at 3 it writes
    nothing and leaves [man] as it found it. *)
Theorem for_loop_from_any_index :
  forall (fuel : nat) (i : Z) (man0 : string) (w : World),
    0 <= i <= 3 ->
    (Z.to_nat (3 - i) < fuel)%nat ->
    exists man1,
      for_loop fuel i man0 w
      = Ok man1
           (write w (unlines (flat_map phone_block
                                (skipn (Z.to_nat i) manufacturers)))) /\
      (i = 3 -> man1 = man0).
Proof.
  intros fuel i man0 w Hi Hf.
  assert (i = 0 \/ i = 1 \/ i = 2 \/ i = 3) as [-> | [-> | [-> | ->]]] by lia.
  - destruct fuel as [|[|[|[|fuel]]]]; try (cbn in Hf; lia).
    rewrite (for_loop_step _ 0 _ "Nokia") by (try lia; reflexivity).
    rewrite (for_loop_step _ (0 + 1) _ "Samsung") by (try lia; reflexivity).
    rewrite (for_loop_step _ (0 + 1 + 1) _ "HTC") by (try lia; reflexivity).
    rewrite for_loop_exit by lia. rewrite !write_write.
    eexists; split; [reflexivity | lia].
  - destruct fuel as [|[|[|fuel]]]; try (cbn in Hf; lia).
    rewrite (for_loop_step _ 1 _ "Samsung") by (try lia; reflexivity).
    rewrite (for_loop_step _ (1 + 1) _ "HTC") by (try lia; reflexivity).
    rewrite for_loop_exit by lia. rewrite !write_write.
    eexists; split; [reflexivity | lia].
  - destruct fuel as [|[|fuel]]; try (cbn in Hf; lia).
    rewrite (for_loop_step _ 2 _ "HTC") by (try lia; reflexivity).
    rewrite for_loop_exit by lia.
    eexists; split; [reflexivity | lia].
  - destruct fuel as [|fuel]; try (cbn in Hf; lia).
    rewrite for_loop_exit by lia.
    exists man0; split; [|reflexivity].
    cbn. now rewrite write_nil.
Qed.

Lemma for_loop_from_any_index_witness :
  0 <= 2 <= 3 /\ (Z.to_nat (3 - 2) < 2)%nat /\
  exists man1,
    for_loop 2 2 "Samsung" (start EmptyString)
    = Ok man1 (write (start EmptyString) (unlines (phone_block "HTC"))).
Proof.
  assert (Hi : 0 <= 2 <= 3) by lia.
  assert (Hf : (Z.to_nat (3 - 2) < 2)%nat) by (cbn; lia).
  split; [exact Hi|]. split; [exact Hf|].
  destruct (for_loop_from_any_index 2 2 "Samsung" (start EmptyString) Hi Hf)
    as (man1 & E & _).
  exists man1. rewrite E. reflexivity.
Defined.

End DriverAnyIndex.
